(** * The styling configuration of the cheat-sheet site

    The only file of the repository that a program reads is
    [tailwind.config.cjs], a CommonJS module whose body is one statement:
    it assigns an object literal to [module.exports].  This development
    embeds that module and the JavaScript values it builds, and states the
    properties of the exported object. *)

From Stdlib Require Import String Ascii List Bool Arith ZArith Lia.
Import ListNotations.

Local Open Scope string_scope.
Local Open Scope list_scope.

(** ** JavaScript values *)

Module Js.

(** The values a configuration module can export.  Arrays keep the order
    of their elements; an object keeps its own properties in insertion
    order, as the language does for string keys. *)
#[local] Unset Elimination Schemes.
Inductive value : Type :=
| Undefined
| Null
| Boolean (b : bool)
| Str (s : string)
| Arr (elems : list value)
| Obj (props : list (string * value))
| Fn (name : string).
#[local] Set Elimination Schemes.

Definition props : Type := list (string * value).

(** [typeof v] *)
Definition typeof (v : value) : string :=
  match v with
  | Undefined => "undefined"
  | Null => "object"
  | Boolean _ => "boolean"
  | Str _ => "string"
  | Arr _ => "object"
  | Obj _ => "object"
  | Fn _ => "function"
  end.

(** [Array.isArray(v)] *)
Definition isArray (v : value) : bool :=
  match v with Arr _ => true | _ => false end.

Definition is_string (v : value) : bool :=
  match v with Str _ => true | _ => false end.

(** A plain object: [typeof v === "object"], not [null], not an array. *)
Definition is_plain_object (v : value) : bool :=
  match v with Obj _ => true | _ => false end.

(** Own-property lookup in a property list. *)
Fixpoint assoc (k : string) (ps : props) : option value :=
  match ps with
  | [] => None
  | (k', v) :: rest => if (k =? k')%string then Some v else assoc k rest
  end.

(** The names of the own properties, in order ([Object.keys]). *)
Definition keys (ps : props) : list string := map fst ps.

(** Defining a data property: an existing key keeps its position and
    takes the new value, a new key goes last. *)
Fixpoint define_own (k : string) (v : value) (ps : props) : props :=
  match ps with
  | [] => [(k, v)]
  | (k', v') :: rest =>
      if (k =? k')%string then (k', v) :: rest
      else (k', v') :: define_own k v rest
  end.

(** Evaluation of an object literal [{ k1: v1, ..., kn: vn }]: the
    properties are defined from left to right on an empty object. *)
Definition object_literal (defs : list (string * value)) : value :=
  Obj (fold_left (fun acc kv => define_own (fst kv) (snd kv) acc) defs []).

(** Evaluation of an array literal [[v1, ..., vn]]. *)
Definition array_literal (elems : list value) : value := Arr elems.

(** [v.k] restricted to own properties: [None] when [v] is not a plain
    object or has no own property [k]. *)
Definition own_property (k : string) (v : value) : option value :=
  match v with
  | Obj ps => assoc k ps
  | _ => None
  end.

(** [Object.keys(v)] for a plain object. *)
Definition own_keys (v : value) : option (list string) :=
  match v with
  | Obj ps => Some (keys ps)
  | _ => None
  end.

(** Does a function value occur anywhere inside [v]? *)
Fixpoint contains_function (v : value) : bool :=
  match v with
  | Fn _ => true
  | Arr elems =>
      (fix any (l : list value) : bool :=
         match l with
         | [] => false
         | x :: r => contains_function x || any r
         end) elems
  | Obj ps =>
      (fix any (l : props) : bool :=
         match l with
         | [] => false
         | (_, x) :: r => contains_function x || any r
         end) ps
  | _ => false
  end.

End Js.

Import Js.

(** ** The module *)

(** A CommonJS module record, as the loader hands it to the module body. *)
Record module : Type := mkModule {
  exports : value
}.

(** What the evaluation of a module body can reach: its own module record,
    the global object and the console. *)
Record realm : Type := mkRealm {
  this_module : module;
  globals : props;
  console : list string
}.

(** The object literal on the right of [module.exports = ...]. *)
Definition config_literal : value :=
  object_literal
    [ ("darkMode", Str "class");
      ("content",
        array_literal [ Str "./src/**/*.{astro,html,js,jsx,ts,tsx}" ]);
      ("theme", object_literal [ ("extend", object_literal []) ]);
      ("plugins", array_literal []) ].

(** [tailwind.config.cjs]: the module body, run in a realm. *)
Definition tailwind_config (r : realm) : realm :=
  {| this_module := {| exports := config_literal |};
     globals := globals r;
     console := console r |}.

(** The loader creates the module with an empty [exports] object. *)
Definition fresh_realm : realm :=
  {| this_module := {| exports := object_literal [] |};
     globals := [];
     console := [] |}.

(** [require("./tailwind.config.cjs")] *)
Definition module_exports : value :=
  exports (this_module (tailwind_config fresh_realm)).

Definition top_level_fields : list string :=
  [ "darkMode"; "content"; "theme"; "plugins" ].

(** ** Glob patterns

    The entries of [content] are written in the pattern language of the
    tool that consumes the configuration.  The module itself never matches
    a path; the reading below is the documented one of the three
    constructs the configured pattern uses: a brace group lists
    alternatives, a star stands for any run of characters inside one path
    segment, and a double star followed by a slash stands for any number
    of whole directory segments. *)

Module Glob.

Inductive token : Type :=
| Lit (c : ascii)
| Star
| GlobStar
| Alt (alts : list string).

(** Where the scanner is: outside any brace group, or inside one with
    the finished alternatives and the one being read. *)
Inductive mode : Type :=
| Outside
| Inside (finished : list string) (current : string).

Definition emit (t : token) (rest : option (list token)) : option (list token) :=
  option_map (cons t) rest.

(** Scanning fails on an unbalanced or nested brace. *)
Fixpoint scan (m : mode) (s : string) {struct s} : option (list token) :=
  match s with
  | EmptyString =>
      match m with Outside => Some [] | Inside _ _ => None end
  | String c r =>
      match m with
      | Inside finished current =>
          if (c =? "}")%char then
            emit (Alt (finished ++ [current])) (scan Outside r)
          else if (c =? ",")%char then
            scan (Inside (finished ++ [current]) "") r
          else if (c =? "{")%char then None
          else scan (Inside finished (current ++ String c "")) r
      | Outside =>
          if (c =? "{")%char then scan (Inside [] "") r
          else if (c =? "}")%char then None
          else if (c =? "*")%char then
            match r with
            | String c2 (String c3 r') =>
                if ((c2 =? "*") && (c3 =? "/"))%char
                then emit GlobStar (scan Outside r')
                else emit Star (scan Outside r)
            | _ => emit Star (scan Outside r)
            end
          else emit (Lit c) (scan Outside r)
      end
  end.

Definition tokenize (pattern : string) : option (list token) :=
  scan Outside pattern.

(** [strip_prefix a s] is the rest of [s] after the prefix [a]. *)
Fixpoint strip_prefix (a s : string) : option string :=
  match a with
  | EmptyString => Some s
  | String c a' =>
      match s with
      | EmptyString => None
      | String d s' => if (c =? d)%char then strip_prefix a' s' else None
      end
  end.

(** A star: the continuation [k] takes over after any run of
    characters other than the slash. *)
Fixpoint star_then (k : string -> bool) (s : string) : bool :=
  k s ||
  match s with
  | EmptyString => false
  | String d r => negb (d =? "/")%char && star_then k r
  end.

(** A double star with its slash: the continuation takes over at the
    start or right after any later slash. *)
Fixpoint dirs_then (k : string -> bool) (boundary : bool) (s : string) : bool :=
  (boundary && k s) ||
  match s with
  | EmptyString => false
  | String d r => dirs_then k (d =? "/")%char r
  end.

Fixpoint matches (p : list token) (s : string) {struct p} : bool :=
  match p with
  | [] => (s =? "")%string
  | Lit c :: p' =>
      match s with
      | EmptyString => false
      | String d r => (c =? d)%char && matches p' r
      end
  | Star :: p' => star_then (matches p') s
  | GlobStar :: p' => dirs_then (matches p') true s
  | Alt alts :: p' =>
      existsb (fun a => match strip_prefix a s with
                        | Some r => matches p' r
                        | None => false
                        end) alts
  end.

(** A path is selected by a pattern when the pattern scans and its
    tokens match the whole path. *)
Definition selects (pattern path : string) : bool :=
  match tokenize pattern with
  | Some p => matches p path
  | None => false
  end.

Definition well_formed (pattern : string) : bool :=
  match tokenize pattern with Some _ => true | None => false end.

(** No slash occurs in [s]. *)
Fixpoint segment (s : string) : bool :=
  match s with
  | EmptyString => true
  | String c r => negb (c =? "/")%char && segment r
  end.

(** [s] is a run of directory segments, each closed by a slash. *)
Fixpoint directories (boundary : bool) (s : string) : bool :=
  match s with
  | EmptyString => boundary
  | String c r => directories (c =? "/")%char r
  end.

End Glob.

(** ** Theme resolution

    A [theme] object speaks to the consuming tool in two ways, by the
    tool's configuration format: a key of [theme] other than [extend]
    replaces the default section of that name, and a key under
    [theme.extend] adds its tokens to the section of that name.  The
    default sections are the tool's and are kept abstract. *)

Module Theme.

(** The sections [theme] replaces: its own properties except [extend]. *)
Definition overrides (theme : props) : props :=
  filter (fun kv => negb (fst kv =? "extend")%string) theme.

(** The sections [theme.extend] adds tokens to. *)
Definition extensions (theme : props) : props :=
  match assoc "extend" theme with
  | Some (Obj e) => e
  | _ => []
  end.

(** Tokens of [ext] laid over those of [section]. *)
Definition merge_tokens (section ext : value) : value :=
  match section, ext with
  | Obj s, Obj e =>
      Obj (fold_left (fun acc kv => define_own (fst kv) (snd kv) acc) e s)
  | _, _ => ext
  end.

Definition resolve_section (theme : props) (k : string) (default : value) : value :=
  let base :=
    match assoc k (overrides theme) with
    | Some v => v
    | None => default
    end in
  match assoc k (extensions theme) with
  | Some e => merge_tokens base e
  | None => base
  end.

(** What becomes of the default sections under [theme]. *)
Definition resolve (defaults theme : props) : props :=
  map (fun kd => (fst kd, resolve_section theme (fst kd) (snd kd))) defaults.

End Theme.

(** ** The shape the consuming tool accepts *)

Definition all_strings (v : value) : bool :=
  match v with
  | Arr elems => forallb is_string elems
  | _ => false
  end.

(** [darkMode] a string, [content] a list of strings, [theme] a mapping,
    [plugins] a list. *)
Definition accepted_shape (cfg : value) : bool :=
  match own_property "darkMode" cfg, own_property "content" cfg,
        own_property "theme" cfg, own_property "plugins" cfg with
  | Some d, Some c, Some t, Some p =>
      is_string d && all_strings c && is_plain_object t && isArray p
  | _, _, _, _ => false
  end.

(** An element of [content] that is a string scanning as a glob pattern. *)
Definition is_glob_pattern (v : value) : bool :=
  match v with
  | Str s => Glob.well_formed s
  | _ => false
  end.

Definition content_pattern : string := "./src/**/*.{astro,html,js,jsx,ts,tsx}".

Definition scanned_extensions : list string :=
  [ "astro"; "html"; "js"; "jsx"; "ts"; "tsx" ].

(** ** The snippets of the cheat sheet

    The reference document carries small programs of its own: a reducer
    and the counters built on it, an effect that fetches data, a hook that
    follows the window size and a toggle.  They are embedded here with the
    values they compute on. *)

Module Sheet.

(** The numbers of the snippets are counters.  [Int z] stands for the
    integer [z], for [z] between [-2^53] and [2^53], the range in which
    every integer is a number of the language; [NaN] is not-a-number. *)
Inductive number : Type :=
| Int (z : Z)
| NaN.

Definition max_exact : Z := 2 ^ 53.

Definition in_range (z : Z) : Prop := (- max_exact <= z <= max_exact)%Z.

(** [n + 1] on numbers.  Below [2^53] the sum is exact; [2^53 + 1] lies
    half way between two numbers and rounds back to [2^53]. *)
Definition number_succ (n : number) : number :=
  match n with
  | Int z => Int (if (z <? max_exact)%Z then z + 1 else z)
  | NaN => NaN
  end.

(** States and actions: primitives and ordinary objects with data
    properties. *)
#[local] Unset Elimination Schemes.
Inductive val : Type :=
| VUndefined
| VNull
| VBool (b : bool)
| VNum (n : number)
| VStr (s : string)
| VObj (fields : list (string * val)).
#[local] Set Elimination Schemes.

Inductive exn : Type := TypeError.

Inductive result (A : Type) : Type :=
| Ok (a : A)
| Throw (e : exn).

Arguments Ok {A} a.
Arguments Throw {A} e.

Definition bind {A B : Type} (r : result A) (f : A -> result B) : result B :=
  match r with
  | Ok a => f a
  | Throw e => Throw e
  end.

Notation "x <- r ;; k" := (bind r (fun x => k))
  (at level 61, r at next level, right associativity).

Definition nullish (v : val) : bool :=
  match v with
  | VUndefined | VNull => true
  | _ => false
  end.

Fixpoint lookup (k : string) (fs : list (string * val)) : option val :=
  match fs with
  | [] => None
  | (k', v) :: rest => if (k =? k')%string then Some v else lookup k rest
  end.

(** [v.k] for the two names the snippets read, [count] and [type]: a
    type error on [undefined] and [null], the own property of an object
    or [undefined] without one, and [undefined] on the other primitives,
    whose prototypes define neither name. *)
Definition get (k : string) (v : val) : result val :=
  match v with
  | VUndefined | VNull => Throw TypeError
  | VObj fs =>
      match lookup k fs with
      | Some x => Ok x
      | None => Ok VUndefined
      end
  | _ => Ok VUndefined
  end.

(** [v + 1].  A string takes the digit at its end; [undefined], [null]
    and booleans are converted to numbers; an object is converted to a
    string by the inherited [toString], unless a data property of that
    name hides it, which leaves no way to a primitive. *)
Definition plus_one (v : val) : result val :=
  match v with
  | VUndefined => Ok (VNum NaN)
  | VNull => Ok (VNum (Int 1))
  | VBool b => Ok (VNum (Int (if b then 2 else 1)))
  | VNum n => Ok (VNum (number_succ n))
  | VStr s => Ok (VStr (s ++ "1"))
  | VObj fs =>
      match lookup "toString" fs with
      | Some _ => Throw TypeError
      | None => Ok (VStr "[object Object]1")
      end
  end.

(** [x === 'increment'] *)
Definition is_increment_type (x : val) : bool :=
  match x with
  | VStr s => (s =? "increment")%string
  | _ => false
  end.

(** [reducer(state, action)] *)
Definition reducer (state action : val) : result val :=
  t <- get "type" action ;;
  if is_increment_type t then
    c <- get "count" state ;;
    c' <- plus_one c ;;
    Ok (VObj [ ("count", c') ])
  else Ok state.

(** The state [{ count: c }]. *)
Definition count_of (c : val) : val := VObj [ ("count", c) ].

Definition counted (n : Z) : val := count_of (VNum (Int n)).

(** The state after the actions dispatched one after the other. *)
Fixpoint dispatch_all (state : val) (actions : list val) : result val :=
  match actions with
  | [] => Ok state
  | a :: rest => s <- reducer state a ;; dispatch_all s rest
  end.

(** Does the reducer take [a] for an increment? *)
Definition increments (a : val) : bool :=
  match get "type" a with
  | Ok t => is_increment_type t
  | Throw _ => false
  end.

(** [Counter] on [useReducer]: it starts from [{ count: 0 }], every click
    dispatches [{ type: 'increment' }], and it shows [state.count]. *)
Definition Counter_useReducer (clicks : nat) : result val :=
  s <- dispatch_all (VObj [ ("count", VNum (Int 0)) ])
                    (repeat (VObj [ ("type", VStr "increment") ]) clicks) ;;
  get "count" s.

(** [Counter] on [useState], with [initial] defaulting to [0] in the
    typed version: every click applies the updater [c => c + 1]. *)
Definition Counter_useState (initial : option number) (clicks : nat) : number :=
  Nat.iter clicks number_succ
    (match initial with Some n => n | None => Int 0 end).

(** [useToggle(initial = false)]: the value of [on] after [toggle] was
    called [calls] times, each call applying the updater [o => !o]. *)
Definition useToggle (initial : option bool) (calls : nat) : bool :=
  Nat.iter calls negb
    (match initial with Some b => b | None => false end).

(** *** The fetch effect *)

Section FetchEffect.

Variable Data : Type.

(** The variable [mounted] of the effect and the state behind [setData]. *)
Record fetch_state : Type := mkFetch {
  mounted : bool;
  data : Data
}.

Inductive fetch_event : Type :=
| Arrived (d : Data)
| Cleanup.

(** The effect body up to its [return]: [let mounted = true] and the
    request sent. *)
Definition fetch_effect (before : Data) : fetch_state :=
  {| mounted := true; data := before |}.

(** The last [then] callback, [if (mounted) setData(data)], and the
    cleanup, [mounted = false]. *)
Definition fetch_step (st : fetch_state) (ev : fetch_event) : fetch_state :=
  match ev with
  | Arrived d => if mounted st then {| mounted := mounted st; data := d |} else st
  | Cleanup => {| mounted := false; data := data st |}
  end.

Definition fetch_run (st : fetch_state) (evs : list fetch_event) : fetch_state :=
  fold_left fetch_step evs st.

End FetchEffect.

Arguments mounted {Data} f.
Arguments data {Data} f.
Arguments Arrived {Data} d.
Arguments Cleanup {Data}.
Arguments fetch_effect {Data} before.
Arguments fetch_step {Data} st ev.
Arguments fetch_run {Data} st evs.

(** *** The window size hook *)

(** A registered listener: the event type and the identity of the
    function object. *)
Definition listener : Type := (string * nat)%type.

Definition same_listener (a b : listener) : bool :=
  (fst a =? fst b)%string && (snd a =? snd b)%nat.

Record window : Type := mkWindow {
  innerWidth : Z;
  innerHeight : Z;
  listeners : list listener
}.

(** [window.addEventListener(type, f)]: a listener already registered is
    not registered again. *)
Definition addEventListener (type : string) (f : nat) (w : window) : window :=
  {| innerWidth := innerWidth w;
     innerHeight := innerHeight w;
     listeners :=
       if existsb (same_listener (type, f)) (listeners w) then listeners w
       else listeners w ++ [ (type, f) ] |}.

(** [window.removeEventListener(type, f)] *)
Definition removeEventListener (type : string) (f : nat) (w : window) : window :=
  {| innerWidth := innerWidth w;
     innerHeight := innerHeight w;
     listeners :=
       filter (fun l => negb (same_listener (type, f) l)) (listeners w) |}.

(** The window and the [size] state of one use of the hook. *)
Record sized : Type := mkSized {
  win : window;
  size : Z * Z
}.

(** [onResize]: [setSize([window.innerWidth, window.innerHeight])] *)
Definition onResize (s : sized) : sized :=
  {| win := win s; size := (innerWidth (win s), innerHeight (win s)) |}.

(** The hook before its effect has run: [useState([0, 0])]. *)
Definition useWindowSize (w : window) : sized :=
  {| win := w; size := (0, 0)%Z |}.

(** The effect, for the function object [f] it creates as [onResize]:
    register it, then call it once. *)
Definition size_effect (f : nat) (s : sized) : sized :=
  onResize {| win := addEventListener "resize" f (win s); size := size s |}.

(** The cleanup the effect returns. *)
Definition size_cleanup (f : nat) (s : sized) : sized :=
  {| win := removeEventListener "resize" f (win s); size := size s |}.

(** The window takes new dimensions and fires [resize]: the listener [f]
    runs if it is registered. *)
Definition resized (f : nat) (wh : Z * Z) (s : sized) : sized :=
  let w := {| innerWidth := fst wh; innerHeight := snd wh;
              listeners := listeners (win s) |} in
  let s' := {| win := w; size := size s |} in
  if existsb (same_listener ("resize", f)) (listeners w) then onResize s' else s'.

(** A run of [resize] events, each with the new dimensions. *)
Definition resizes (f : nat) (dims : list (Z * Z)) (s : sized) : sized :=
  fold_left (fun acc wh => resized f wh acc) dims s.

End Sheet.

(** ** Facts about objects *)

Section ObjectFacts.

Variables (k : string) (v : value).

Lemma keys_define_own_present (ps : props) :
  In k (keys ps) -> keys (define_own k v ps) = keys ps.
Proof.
  induction ps as [|[k' v'] rest IH]; simpl; intros Hin.
  - contradiction.
  - destruct (String.eqb_spec k k') as [->|Hne]; simpl.
    + reflexivity.
    + f_equal. apply IH. destruct Hin as [Heq|Hin]; [congruence|exact Hin].
Qed.

Lemma keys_define_own_absent (ps : props) :
  ~ In k (keys ps) -> keys (define_own k v ps) = keys ps ++ [k].
Proof.
  induction ps as [|[k' v'] rest IH]; simpl; intros Hnin.
  - reflexivity.
  - destruct (String.eqb_spec k k') as [->|Hne]; simpl.
    + exfalso. apply Hnin. now left.
    + f_equal. apply IH. intros Hin. apply Hnin. now right.
Qed.

Lemma define_own_keeps_keys_distinct (ps : props) :
  NoDup (keys ps) -> NoDup (keys (define_own k v ps)).
Proof.
  intros Hnd.
  destruct (in_dec string_dec k (keys ps)) as [Hin|Hnin].
  - now rewrite keys_define_own_present.
  - rewrite keys_define_own_absent by assumption.
    apply NoDup_app; [exact Hnd | repeat constructor; simpl; tauto | ].
    intros x Hx [<-|[]]. contradiction.
Qed.

Lemma assoc_define_own_same (ps : props) :
  assoc k (define_own k v ps) = Some v.
Proof.
  induction ps as [|[k' v'] rest IH]; simpl.
  - now rewrite String.eqb_refl.
  - destruct (String.eqb_spec k k') as [->|Hne]; simpl.
    + now rewrite String.eqb_refl.
    + destruct (String.eqb_spec k k'); [contradiction|exact IH].
Qed.

Lemma assoc_define_own_other (j : string) (ps : props) :
  j <> k -> assoc j (define_own k v ps) = assoc j ps.
Proof.
  intros Hjk.
  induction ps as [|[k' v'] rest IH]; simpl.
  - destruct (String.eqb_spec j k); [contradiction|reflexivity].
  - destruct (String.eqb_spec k k') as [->|Hne]; simpl.
    + destruct (String.eqb_spec j k'); [contradiction|reflexivity].
    + now rewrite IH.
Qed.

End ObjectFacts.

Lemma assoc_defined_iff (k : string) (ps : props) :
  assoc k ps <> None <-> In k (keys ps).
Proof.
  induction ps as [|[k' v'] rest IH]; simpl.
  - tauto.
  - destruct (String.eqb_spec k k') as [->|Hne].
    + split; [now left | discriminate].
    + rewrite IH. split; [now right | intros [Heq|Hin]; [congruence|exact Hin]].
Qed.

(** An object literal never yields two properties of one name. *)
Lemma object_literal_keys_distinct (defs : list (string * value)) :
  exists ps, object_literal defs = Obj ps /\ NoDup (keys ps).
Proof.
  unfold object_literal.
  assert (H : forall acc, NoDup (keys acc) ->
    NoDup (keys (fold_left (fun a kv => define_own (fst kv) (snd kv) a) defs acc))).
  { induction defs as [|[k v] rest IH]; simpl; intros acc Hacc.
    - exact Hacc.
    - apply IH. now apply define_own_keeps_keys_distinct. }
  eexists. split; [reflexivity|]. apply H. constructor.
Qed.

(** ** Facts about matching *)

Section MatchFacts.

Import Glob.

Lemma strip_prefix_spec (a s r : string) :
  strip_prefix a s = Some r <-> s = (a ++ r)%string.
Proof.
  revert s. induction a as [|c a IH]; intros s; simpl.
  - split; congruence.
  - destruct s as [|d s]; [split; discriminate|].
    destruct (Ascii.eqb_spec c d) as [->|Hne].
    + rewrite IH. split; congruence.
    + split; [discriminate|]. intros H. injection H as H _. congruence.
Qed.

Variable k : string -> bool.

Lemma star_then_spec (s : string) :
  star_then k s = true <->
  exists a r, s = (a ++ r)%string /\ segment a = true /\ k r = true.
Proof.
  induction s as [|d s IH]; simpl.
  - rewrite orb_false_r. split.
    + intros H. now exists "", "".
    + intros (a & r & Hs & _ & Hk). destruct a; [|discriminate].
      simpl in Hs. now subst r.
  - rewrite orb_true_iff, andb_true_iff, IH. split.
    + intros [Hk | [Hd (a & r & -> & Ha & Hk)]].
      * now exists "", (String d s).
      * exists (String d a), r. simpl. now rewrite Hd, Ha.
    + intros (a & r & Hs & Ha & Hk). destruct a as [|c a]; simpl in *.
      * left. now subst r.
      * injection Hs as -> ->. apply andb_true_iff in Ha as [Hd Ha].
        right. split; [exact Hd|]. now exists a, r.
Qed.

Lemma dirs_then_spec (s : string) (boundary : bool) :
  dirs_then k boundary s = true <->
  exists d r, s = (d ++ r)%string /\ directories boundary d = true /\ k r = true.
Proof.
  revert boundary. induction s as [|c s IH]; intros boundary; simpl.
  - rewrite orb_false_r, andb_true_iff. split.
    + intros [Hb Hk]. now exists "", "".
    + intros (d & r & Hs & Hd & Hk). destruct d; [|discriminate].
      simpl in *. now subst r.
  - rewrite orb_true_iff, andb_true_iff, IH. split.
    + intros [[Hb Hk] | (d & r & -> & Hd & Hk)].
      * now exists "", (String c s).
      * now exists (String c d), r.
    + intros (d & r & Hs & Hd & Hk). destruct d as [|c' d]; simpl in *.
      * left. now subst r.
      * injection Hs as -> ->. right. now exists d, r.
Qed.

End MatchFacts.

Lemma append_empty_r (s : string) : (s ++ "")%string = s.
Proof. induction s as [|c s IH]; simpl; [reflexivity | now rewrite IH]. Qed.

Lemma matches_nil (s : string) :
  Glob.matches [] s = true <-> s = "".
Proof. simpl. apply String.eqb_eq. Qed.

Lemma matches_lit (c : ascii) (p : list Glob.token) (s : string) :
  Glob.matches (Glob.Lit c :: p) s = true <->
  exists r, s = String c r /\ Glob.matches p r = true.
Proof.
  simpl. destruct s as [|d r].
  - split; [discriminate | intros (r & H & _); discriminate].
  - rewrite andb_true_iff. split.
    + intros [Hc Hm]. apply Ascii.eqb_eq in Hc as <-. now exists r.
    + intros (r' & H & Hm). injection H as -> ->. now rewrite Ascii.eqb_refl.
Qed.

Lemma matches_star (p : list Glob.token) (s : string) :
  Glob.matches (Glob.Star :: p) s = true <->
  exists a r, s = (a ++ r)%string /\ Glob.segment a = true /\ Glob.matches p r = true.
Proof. apply star_then_spec. Qed.

Lemma matches_globstar (p : list Glob.token) (s : string) :
  Glob.matches (Glob.GlobStar :: p) s = true <->
  exists d r, s = (d ++ r)%string /\ Glob.directories true d = true /\ Glob.matches p r = true.
Proof. apply dirs_then_spec. Qed.

Lemma matches_alt (alts : list string) (p : list Glob.token) (s : string) :
  Glob.matches (Glob.Alt alts :: p) s = true <->
  exists a r, In a alts /\ s = (a ++ r)%string /\ Glob.matches p r = true.
Proof.
  simpl. rewrite existsb_exists. split.
  - intros (a & Hin & H).
    destruct (Glob.strip_prefix a s) as [r|] eqn:E; [|discriminate].
    apply strip_prefix_spec in E. now exists a, r.
  - intros (a & r & Hin & Hs & Hm). exists a. split; [exact Hin|].
    apply strip_prefix_spec in Hs. now rewrite Hs.
Qed.

(** ** The exported configuration *)

(** What [require] returns, spelled out. *)
Lemma module_exports_value :
  module_exports =
  Obj [ ("darkMode", Str "class");
        ("content", Arr [ Str content_pattern ]);
        ("theme", Obj [ ("extend", Obj []) ]);
        ("plugins", Arr []) ].
Proof. reflexivity. Qed.

(** C1: the exported object has exactly the four own properties
    [darkMode], [content], [theme] and [plugins], each once and no other;
    [darkMode] holds a selector string, [content] a collection, [theme] a
    mapping that contains [extend], and [plugins] a list. *)
Theorem config_has_exactly_four_fields :
  own_keys module_exports = Some top_level_fields /\
  NoDup top_level_fields /\
  length top_level_fields = 4 /\
  (forall k, own_property k module_exports <> None <-> In k top_level_fields) /\
  (exists d c t p,
      own_property "darkMode" module_exports = Some (Str d) /\
      own_property "content" module_exports = Some (Arr c) /\
      own_property "theme" module_exports = Some (Obj t) /\
      In "extend" (keys t) /\
      own_property "plugins" module_exports = Some (Arr p)).
Proof.
  rewrite module_exports_value.
  split; [reflexivity|].
  split.
  { destruct (object_literal_keys_distinct
                [ ("darkMode", Undefined); ("content", Undefined);
                  ("theme", Undefined); ("plugins", Undefined) ])
      as (ps & Hps & Hnd).
    injection Hps as <-. exact Hnd. }
  split; [reflexivity|].
  split.
  { intros k. unfold own_property. apply assoc_defined_iff. }
  do 4 eexists. repeat split; try reflexivity. simpl. now left.
Qed.

(** C2: [darkMode] is the string ["class"], the selector of the
    class-based strategy (the file's own comment: the class strategy, so
    that the theme is toggled through the class list of the document
    element). *)
Theorem darkMode_is_class :
  own_property "darkMode" module_exports = Some (Str "class").
Proof. reflexivity. Qed.

(** C3: [content] is an array, so its elements are ordered and addressed
    by index, and every element is a string that scans as a glob
    pattern. *)
Theorem content_is_ordered_list_of_globs :
  exists elems,
    own_property "content" module_exports = Some (Arr elems) /\
    isArray (Arr elems) = true /\
    nth_error elems 0 = Some (Str content_pattern) /\
    forallb is_glob_pattern elems = true /\
    Forall (fun v => exists s, v = Str s /\ Glob.well_formed s = true) elems.
Proof.
  exists [ Str content_pattern ].
  repeat split; try reflexivity.
  constructor; [|constructor]. now exists content_pattern.
Qed.

(** C4: [theme.extend] is an empty mapping: it has no own property names
    and no entry under any name. *)
Theorem theme_extend_is_empty :
  exists t e,
    own_property "theme" module_exports = Some t /\
    own_property "extend" t = Some e /\
    is_plain_object e = true /\
    own_keys e = Some [] /\
    (forall k, own_property k e = None).
Proof.
  exists (Obj [ ("extend", Obj []) ]), (Obj []).
  repeat split; reflexivity.
Qed.

(** C5: [plugins] is the empty array: it has length zero and no element
    at any index. *)
Theorem plugins_is_empty_list :
  exists elems,
    own_property "plugins" module_exports = Some (Arr elems) /\
    isArray (Arr elems) = true /\
    length elems = 0 /\
    (forall i, nth_error elems i = None).
Proof.
  exists []. repeat split; try reflexivity. now intros [|i].
Qed.

(** C6: the exported object has the shape the consuming tool accepts:
    [darkMode] is a string, [content] an array whose elements are all
    strings, [theme] a plain object and [plugins] an array. *)
Theorem config_has_accepted_shape :
  accepted_shape module_exports = true /\
  (exists d c t p,
      own_property "darkMode" module_exports = Some d /\
      typeof d = "string" /\
      own_property "content" module_exports = Some c /\
      isArray c = true /\ all_strings c = true /\
      own_property "theme" module_exports = Some t /\
      typeof t = "object" /\ isArray t = false /\ t <> Null /\
      own_property "plugins" module_exports = Some p /\
      isArray p = true).
Proof.
  split; [reflexivity|].
  exists (Str "class"), (Arr [ Str content_pattern ]),
         (Obj [ ("extend", Obj []) ]), (Arr []).
  repeat split; try reflexivity. discriminate.
Qed.

(** C7: evaluating the module is pure.  Whatever realm it runs in, it
    exports the same value, so two evaluations agree; it leaves the global
    object and the console as they were; evaluating it again changes
    nothing; and no function occurs in the exported value. *)
Theorem evaluation_is_pure :
  (forall r1 r2,
      exports (this_module (tailwind_config r1)) =
      exports (this_module (tailwind_config r2))) /\
  (forall r, exports (this_module (tailwind_config r)) = module_exports) /\
  (forall r, globals (tailwind_config r) = globals r /\
             console (tailwind_config r) = console r) /\
  (forall r, tailwind_config (tailwind_config r) = tailwind_config r) /\
  contains_function module_exports = false.
Proof.
  repeat split; reflexivity.
Qed.

(** C8: [content] holds exactly one pattern, the string
    ["./src/**/*.{astro,html,js,jsx,ts,tsx}"]; its brace group lists the six
    extensions, and every path it selects lies under [./src/] and ends in
    a dot and one of them. *)
Theorem content_is_one_pattern_under_src :
  own_property "content" module_exports = Some (Arr [ Str content_pattern ]) /\
  content_pattern = "./src/**/*.{astro,html,js,jsx,ts,tsx}" /\
  Glob.tokenize content_pattern =
    Some (map Glob.Lit (list_ascii_of_string "./src/") ++
          [ Glob.GlobStar; Glob.Star; Glob.Lit "."; Glob.Alt scanned_extensions ]) /\
  length scanned_extensions = 6 /\
  (forall path, Glob.selects content_pattern path = true ->
     exists dirs name ext,
       path = ("./src/" ++ dirs ++ name ++ "." ++ ext)%string /\
       Glob.directories true dirs = true /\
       Glob.segment name = true /\
       In ext scanned_extensions).
Proof.
  split; [reflexivity|]. split; [reflexivity|]. split; [reflexivity|].
  split; [reflexivity|].
  intros path H. unfold Glob.selects in H.
  change (Glob.tokenize content_pattern) with
    (Some (map Glob.Lit (list_ascii_of_string "./src/") ++
           [ Glob.GlobStar; Glob.Star; Glob.Lit "."; Glob.Alt scanned_extensions ]))
    in H.
  cbn [map list_ascii_of_string app] in H.
  repeat (apply matches_lit in H; destruct H as (? & -> & H)).
  apply matches_globstar in H. destruct H as (dirs & r1 & -> & Hdirs & H).
  apply matches_star in H. destruct H as (name & r2 & -> & Hname & H).
  apply matches_lit in H. destruct H as (r3 & -> & H).
  apply matches_alt in H. destruct H as (ext & r4 & Hext & -> & H).
  apply matches_nil in H. subst r4.
  exists dirs, name, ext. repeat split; try assumption.
  now rewrite append_empty_r.
Qed.

Lemma content_is_one_pattern_under_src_witness :
  Glob.selects content_pattern "./src/pages/index.astro" = true /\
  exists dirs name ext,
    "./src/pages/index.astro" = ("./src/" ++ dirs ++ name ++ "." ++ ext)%string /\
    Glob.directories true dirs = true /\
    Glob.segment name = true /\
    In ext scanned_extensions.
Proof.
  split; [reflexivity|].
  destruct content_is_one_pattern_under_src as (_ & _ & _ & _ & H).
  apply (H "./src/pages/index.astro"). reflexivity.
Defined.

(** The pattern does select paths, one for each extension at several
    depths, and rejects paths outside [./src/] or with another ending. *)
Example content_pattern_selected :
  forallb (Glob.selects content_pattern)
    [ "./src/a.astro"; "./src/index.html"; "./src/lib/util.js";
      "./src/components/ui/Button.jsx"; "./src/a/b/c/d.ts";
      "./src/pages/docs/react.tsx" ] = true.
Proof. reflexivity. Qed.

Example content_pattern_rejected :
  existsb (Glob.selects content_pattern)
    [ "./lib/a.js"; "src/a.js"; "./src/a.css"; "./src/a.jsxx";
      "./src/a.ts/readme"; "./tailwind.config.cjs"; "./src/";
      "./src/notes.md" ] = false.
Proof. reflexivity. Qed.

(** A theme that neither replaces nor extends a section leaves every
    default section as it is. *)
Lemma resolve_unchanged (defaults theme : props) :
  Theme.overrides theme = [] ->
  Theme.extensions theme = [] ->
  Theme.resolve defaults theme = defaults.
Proof.
  intros Hov Hext. unfold Theme.resolve.
  induction defaults as [|[k d] rest IH]; simpl.
  - reflexivity.
  - rewrite IH. unfold Theme.resolve_section. now rewrite Hov, Hext.
Qed.

(** By contrast, a theme with a key of its own replaces that section. *)
Example resolve_replaces_section :
  Theme.resolve [ ("colors", Obj [ ("red", Str "#f00") ]); ("spacing", Obj []) ]
                [ ("colors", Obj [ ("brand", Str "#0af") ]); ("extend", Obj []) ] =
  [ ("colors", Obj [ ("brand", Str "#0af") ]); ("spacing", Obj []) ].
Proof. reflexivity. Qed.

Example resolve_extends_section :
  Theme.resolve [ ("colors", Obj [ ("red", Str "#f00") ]) ]
                [ ("extend", Obj [ ("colors", Obj [ ("brand", Str "#0af") ]) ]) ] =
  [ ("colors", Obj [ ("red", Str "#f00"); ("brand", Str "#0af") ]) ].
Proof. reflexivity. Qed.

(** C9: [theme] has the single own property [extend] and nothing else, so
    it replaces no section of the defaults, and with [extend] empty every
    default section of the consuming tool resolves to itself. *)
Theorem theme_only_has_extend :
  exists t,
    own_property "theme" module_exports = Some (Obj t) /\
    keys t = [ "extend" ] /\
    (forall k, k <> "extend" -> assoc k t = None) /\
    Theme.overrides t = [] /\
    Theme.extensions t = [] /\
    (forall defaults, Theme.resolve defaults t = defaults).
Proof.
  exists [ ("extend", Obj []) ].
  split; [reflexivity|]. split; [reflexivity|]. split.
  { intros k Hk. simpl. destruct (String.eqb_spec k "extend"); [contradiction|reflexivity]. }
  split; [reflexivity|]. split; [reflexivity|].
  intros defaults. now apply resolve_unchanged.
Qed.

Lemma theme_only_has_extend_witness :
  "colors" <> "extend" /\
  exists t,
    own_property "theme" module_exports = Some (Obj t) /\
    assoc "colors" t = None /\
    Theme.resolve [ ("colors", Obj [ ("red", Str "#f00") ]) ] t =
      [ ("colors", Obj [ ("red", Str "#f00") ]) ].
Proof.
  split; [discriminate|].
  destruct theme_only_has_extend as (t & Ht & _ & Hk & _ & _ & Hres).
  exists t. split; [exact Ht|]. split; [apply Hk; discriminate | apply Hres].
Defined.

(** ** The reducer and the counters *)

Import Sheet.

Lemma max_exact_pos : (0 < max_exact)%Z.
Proof. reflexivity. Qed.

Lemma reducer_other_action (s a : val) :
  nullish a = false -> increments a = false -> reducer s a = Ok s.
Proof.
  unfold reducer, increments.
  destruct a; simpl; try discriminate; try reflexivity.
  destruct (lookup "type" fields) as [t|]; simpl; [|reflexivity].
  now intros _ ->.
Qed.

Lemma reducer_increment (s a : val) :
  increments a = true ->
  reducer s a = (c <- get "count" s ;; c' <- plus_one c ;; Ok (count_of c')).
Proof.
  unfold reducer, increments.
  destruct (get "type" a) as [t|e]; simpl; [|discriminate].
  now intros ->.
Qed.

Lemma increments_not_nullish (a : val) :
  increments a = true -> nullish a = false.
Proof. destruct a; simpl; (discriminate || reflexivity). Qed.


(** X2: actions that are not increments leave no trace: as long as no
    action is [undefined] or [null], dispatching a list of actions gives
    what dispatching its increments alone gives, errors included. *)
Theorem dispatch_ignores_other_actions (s : val) (actions : list val) :
  Forall (fun a => nullish a = false) actions ->
  dispatch_all s actions = dispatch_all s (filter increments actions).
Proof.
  intros Hall. revert s.
  induction Hall as [|a rest Ha _ IH]; intros s; simpl.
  - reflexivity.
  - destruct (increments a) eqn:Hi; simpl.
    + destruct (reducer s a) as [s'|e]; simpl; [apply IH | reflexivity].
    + rewrite (reducer_other_action _ _ Ha Hi). simpl. apply IH.
Qed.

Lemma dispatch_ignores_other_actions_witness :
  dispatch_all (counted 0)
    [ VObj [ ("type", VStr "reset") ]; VObj [ ("type", VStr "increment") ];
      VStr "increment"; VObj [] ] =
  dispatch_all (counted 0) [ VObj [ ("type", VStr "increment") ] ].
Proof.
  apply (dispatch_ignores_other_actions (counted 0)
    [ VObj [ ("type", VStr "reset") ]; VObj [ ("type", VStr "increment") ];
      VStr "increment"; VObj [] ]).
  repeat constructor.
Defined.

Lemma reducer_counted (n : Z) (a : val) :
  increments a = true ->
  reducer (counted n) a = Ok (counted (if (n <? max_exact)%Z then n + 1 else n)).
Proof. intros Hi. now rewrite (reducer_increment _ _ Hi). Qed.

(** X3: from a state [{ count: n }] the reducer counts the increments
    among the actions, up to [2^53], where the count stays. *)
Theorem dispatch_counts_increments (n : Z) (actions : list val) :
  in_range n ->
  Forall (fun a => nullish a = false) actions ->
  dispatch_all (counted n) actions =
  Ok (counted (Z.min (n + Z.of_nat (length (filter increments actions))) max_exact)).
Proof.
  intros Hn Hall. revert n Hn.
  induction Hall as [|a rest Ha _ IH]; intros n Hn; cbn [dispatch_all filter].
  - unfold in_range in Hn. cbn [length Z.of_nat]. do 2 f_equal. lia.
  - destruct (increments a) eqn:Hi.
    + rewrite (reducer_counted _ _ Hi). cbn [bind length].
      unfold in_range in Hn.
      rewrite IH, Nat2Z.inj_succ.
      * do 2 f_equal. destruct (Z.ltb_spec n max_exact); lia.
      * unfold in_range. destruct (Z.ltb_spec n max_exact); lia.
    + rewrite (reducer_other_action _ _ Ha Hi). cbn [bind]. now apply IH.
Qed.

Lemma dispatch_counts_increments_witness :
  dispatch_all (counted 41)
    [ VObj [ ("type", VStr "increment") ]; VObj [ ("type", VStr "noop") ] ] =
  Ok (counted 42).
Proof.
  apply (dispatch_counts_increments 41
    [ VObj [ ("type", VStr "increment") ]; VObj [ ("type", VStr "noop") ] ]).
  - split; discriminate.
  - repeat constructor.
Defined.

Lemma filter_increments_repeat (k : nat) :
  filter increments (repeat (VObj [ ("type", VStr "increment") ]) k) =
  repeat (VObj [ ("type", VStr "increment") ]) k.
Proof. induction k as [|k IH]; simpl; [reflexivity | now rewrite IH]. Qed.

(** X4: the counter built on the reducer shows the number of clicks, for
    any number of clicks up to [2^53]. *)
Theorem Counter_useReducer_shows_clicks (clicks : nat) :
  (Z.of_nat clicks <= max_exact)%Z ->
  Counter_useReducer clicks = Ok (VNum (Int (Z.of_nat clicks))).
Proof.
  intros Hk. unfold Counter_useReducer.
  change (VObj [ ("count", VNum (Int 0)) ]) with (counted 0).
  rewrite dispatch_counts_increments.
  - rewrite filter_increments_repeat, repeat_length, Z.add_0_l, Z.min_l by exact Hk.
    reflexivity.
  - pose proof max_exact_pos. unfold in_range. lia.
  - apply Forall_forall. intros a Ha. apply repeat_spec in Ha. now subst a.
Qed.

Lemma Counter_useReducer_shows_clicks_witness :
  Counter_useReducer 5 = Ok (VNum (Int 5)).
Proof.
  apply (Counter_useReducer_shows_clicks 5). discriminate.
Defined.

Lemma single_count_kept (actions : list val) :
  forall c s', dispatch_all (count_of c) actions = Ok s' ->
               exists c', s' = count_of c'.
Proof.
  induction actions as [|a rest IH]; intros c s'; cbn [dispatch_all].
  - intros H. injection H as <-. now exists c.
  - destruct (increments a) eqn:Hi.
    + rewrite (reducer_increment _ _ Hi). cbn [get count_of lookup bind].
      simpl. destruct (plus_one c) as [c1|e]; simpl; [apply IH | discriminate].
    + destruct (nullish a) eqn:Ha.
      * destruct a; try discriminate; simpl; discriminate.
      * rewrite (reducer_other_action _ _ Ha Hi). cbn [bind]. apply IH.
Qed.

(** X5: an increment keeps nothing of the state but the count: whenever
    a list of actions with at least one increment is dispatched without
    an error, the state it ends in is an object whose only property is
    [count], whatever the state it started from. *)
Theorem dispatch_leaves_only_count (s s' : val) (actions : list val) :
  existsb increments actions = true ->
  dispatch_all s actions = Ok s' ->
  exists c, s' = count_of c.
Proof.
  revert s. induction actions as [|a rest IH]; intros s; cbn [existsb dispatch_all].
  - discriminate.
  - destruct (increments a) eqn:Hi; cbn [orb].
    + intros _. rewrite (reducer_increment _ _ Hi).
      destruct (get "count" s) as [c|e]; cbn [bind]; [|discriminate].
      destruct (plus_one c) as [c1|e]; cbn [bind]; [|discriminate].
      apply single_count_kept.
    + intros Hex. destruct (nullish a) eqn:Ha.
      * destruct a; try discriminate; simpl; discriminate.
      * rewrite (reducer_other_action _ _ Ha Hi). cbn [bind]. now apply IH.
Qed.

Lemma dispatch_leaves_only_count_witness :
  dispatch_all (VObj [ ("user", VStr "ada"); ("count", VNum (Int 7)) ])
               [ VObj [ ("type", VStr "increment") ] ] =
    Ok (VObj [ ("count", VNum (Int 8)) ]) /\
  exists c, VObj [ ("count", VNum (Int 8)) ] = count_of c.
Proof.
  split; [reflexivity|].
  apply (dispatch_leaves_only_count
           (VObj [ ("user", VStr "ada"); ("count", VNum (Int 7)) ])
           (VObj [ ("count", VNum (Int 8)) ])
           [ VObj [ ("type", VStr "increment") ] ]); reflexivity.
Defined.

Lemma nan_count_stays (actions : list val) :
  Forall (fun a => nullish a = false) actions ->
  dispatch_all (count_of (VNum NaN)) actions = Ok (count_of (VNum NaN)).
Proof.
  induction 1 as [|a rest Ha _ IH]; cbn [dispatch_all]; [reflexivity|].
  destruct (increments a) eqn:Hi.
  - rewrite (reducer_increment _ _ Hi). exact IH.
  - rewrite (reducer_other_action _ _ Ha Hi). exact IH.
Qed.

(** X6: a state without a count cannot be counted from: if the state is
    not [undefined] or [null] and its [count] is missing, [undefined] or
    not-a-number, then any list of actions with at least one increment
    ends in [{ count: NaN }]. *)
Theorem dispatch_missing_count_gives_NaN (s : val) (actions : list val) :
  get "count" s = Ok VUndefined \/ get "count" s = Ok (VNum NaN) ->
  Forall (fun a => nullish a = false) actions ->
  existsb increments actions = true ->
  dispatch_all s actions = Ok (count_of (VNum NaN)).
Proof.
  intros Hc Hall. induction Hall as [|a rest Ha Hrest IH]; cbn [existsb dispatch_all].
  - discriminate.
  - destruct (increments a) eqn:Hi; cbn [orb].
    + intros _. rewrite (reducer_increment _ _ Hi).
      destruct Hc as [-> | ->]; cbn [bind plus_one number_succ];
        now apply nan_count_stays.
    + intros Hex. rewrite (reducer_other_action _ _ Ha Hi). cbn [bind]. now apply IH.
Qed.

Lemma dispatch_missing_count_gives_NaN_witness :
  dispatch_all (VObj [ ("total", VNum (Int 3)) ])
    [ VObj [ ("type", VStr "increment") ]; VObj [ ("type", VStr "increment") ] ] =
  Ok (count_of (VNum NaN)).
Proof.
  apply (dispatch_missing_count_gives_NaN (VObj [ ("total", VNum (Int 3)) ])
    [ VObj [ ("type", VStr "increment") ]; VObj [ ("type", VStr "increment") ] ]).
  - left. reflexivity.
  - repeat constructor.
  - reflexivity.
Defined.

Lemma append_digit (s t : string) (c : ascii) :
  ((s ++ String c "") ++ t)%string = (s ++ String c t)%string.
Proof. induction s as [|d s IH]; simpl; [reflexivity | now rewrite IH]. Qed.

(** X7: a count that is a string is not counted but written to: each
    increment puts one more digit [1] at its end. *)
Theorem dispatch_appends_to_string_count (s : string) (actions : list val) :
  Forall (fun a => nullish a = false) actions ->
  dispatch_all (count_of (VStr s)) actions =
  Ok (count_of (VStr (s ++ string_of_list_ascii
                              (repeat "1"%char (length (filter increments actions)))))).
Proof.
  intros Hall. revert s.
  induction Hall as [|a rest Ha _ IH]; intros s; cbn [dispatch_all filter].
  - simpl. now rewrite append_empty_r.
  - destruct (increments a) eqn:Hi.
    + rewrite (reducer_increment _ _ Hi).
      change (get "count" (count_of (VStr s))) with (Ok (VStr s)).
      cbn [bind plus_one]. rewrite IH. do 3 f_equal.
      cbn [length repeat string_of_list_ascii]. apply append_digit.
    + rewrite (reducer_other_action _ _ Ha Hi). cbn [bind]. apply IH.
Qed.

Lemma dispatch_appends_to_string_count_witness :
  dispatch_all (count_of (VStr "7"))
    [ VObj [ ("type", VStr "increment") ]; VObj [ ("type", VStr "increment") ] ] =
  Ok (count_of (VStr "711")).
Proof.
  apply (dispatch_appends_to_string_count "7"
    [ VObj [ ("type", VStr "increment") ]; VObj [ ("type", VStr "increment") ] ]).
  repeat constructor.
Defined.

(** X8: the counter on [useState] shows its initial value plus the number
    of clicks, up to [2^53], where it stays; without an initial value it
    starts from zero. *)
Theorem Counter_useState_counts (n : Z) (clicks : nat) :
  in_range n ->
  Counter_useState (Some (Int n)) clicks =
    Int (Z.min (n + Z.of_nat clicks) max_exact) /\
  Counter_useState None clicks = Counter_useState (Some (Int 0)) clicks.
Proof.
  intros Hn. split; [|reflexivity].
  unfold Counter_useState, in_range in *.
  induction clicks as [|k IH].
  - simpl. f_equal. lia.
  - rewrite Nat.iter_succ, IH, Nat2Z.inj_succ. unfold number_succ. f_equal.
    destruct (Z.ltb_spec (Z.min (n + Z.of_nat k) max_exact) max_exact); lia.
Qed.

Lemma Counter_useState_counts_witness :
  Counter_useState (Some (Int 10)) 3 = Int 13 /\
  Counter_useState None 3 = Counter_useState (Some (Int 0)) 3.
Proof.
  apply (Counter_useState_counts 10 3). split; discriminate.
Defined.

(** X9: [on] after any number of calls of [toggle] is the initial value
    when the number is even and its negation when it is odd, starting
    from [false] when no initial value is given. *)
Theorem useToggle_parity (initial : option bool) (calls : nat) :
  useToggle initial calls =
  xorb (match initial with Some b => b | None => false end) (Nat.odd calls).
Proof.
  unfold useToggle. induction calls as [|k IH].
  - simpl. now rewrite xorb_false_r.
  - rewrite Nat.iter_succ, IH, Nat.odd_succ, <- Nat.negb_odd.
    now destruct (match initial with Some b => b | None => false end), (Nat.odd k).
Qed.

(** ** The fetch effect *)

Section FetchFacts.

Variable Data : Type.

Lemma unmounted_keeps_data (evs : list (fetch_event Data)) :
  forall st, mounted st = false -> data (fetch_run st evs) = data st.
Proof.
  unfold fetch_run.
  induction evs as [|ev rest IH]; intros st Hm; simpl; [reflexivity|].
  destruct ev as [d|]; simpl.
  - rewrite Hm. now apply IH.
  - now rewrite IH.
Qed.

End FetchFacts.

(** X10: once the cleanup of the fetch effect has run, no response sets
    the data any more: whatever happened before the cleanup and whatever
    arrives after it, the data is what it was when the cleanup ran. *)
Theorem fetch_never_sets_data_after_cleanup
    (Data : Type) (before : Data) (pre post : list (fetch_event Data)) :
  data (fetch_run (fetch_effect before) (pre ++ Cleanup :: post)) =
  data (fetch_run (fetch_effect before) pre).
Proof.
  unfold fetch_run. rewrite fold_left_app. cbn [fold_left].
  change (fold_left fetch_step post ?s) with (fetch_run s post).
  now rewrite unmounted_keeps_data.
Qed.

(** X11: as long as the cleanup has not run, the component stays mounted
    and the data is that of the latest response, or the earlier data when
    none has arrived. *)
Theorem fetch_delivers_while_mounted
    (Data : Type) (before : Data) (responses : list Data) :
  fetch_run (fetch_effect before) (map Arrived responses) =
  {| mounted := true; data := last responses before |}.
Proof.
  unfold fetch_run, fetch_effect. revert before.
  induction responses as [|d rest IH]; intros before; [reflexivity|].
  cbn [map fold_left fetch_step mounted].
  rewrite IH. f_equal.
  destruct rest as [|d' rest']; [reflexivity|].
  clear. revert d'. induction rest' as [|e r IHr]; intros d'; [reflexivity|].
  apply (IHr e).
Qed.

(** ** The window size hook *)

Lemma same_listener_refl (l : listener) : same_listener l l = true.
Proof.
  unfold same_listener. now rewrite String.eqb_refl, Nat.eqb_refl.
Qed.

Lemma filter_absent (l : listener) (ls : list listener) :
  existsb (same_listener l) ls = false ->
  filter (fun x => negb (same_listener l x)) ls = ls.
Proof.
  induction ls as [|x rest IH]; simpl; [reflexivity|].
  intros H. apply orb_false_iff in H as [Hx Hrest].
  now rewrite Hx, IH.
Qed.

Lemma filter_removes (l : listener) (ls : list listener) :
  existsb (same_listener l) (filter (fun x => negb (same_listener l x)) ls) = false.
Proof.
  induction ls as [|x rest IH]; simpl; [reflexivity|].
  destruct (same_listener l x) eqn:Hx; simpl; [exact IH|].
  now rewrite Hx, IH.
Qed.

(** X12: the cleanup of the size effect undoes its registration: when
    the function object was not registered before, the listeners after
    effect and cleanup are the ones before, in the same order; and in any
    case the function object is not registered after the cleanup. *)
Theorem size_cleanup_undoes_effect (f : nat) (s : sized) :
  existsb (same_listener ("resize", f)) (listeners (win s)) = false ->
  listeners (win (size_cleanup f (size_effect f s))) = listeners (win s) /\
  existsb (same_listener ("resize", f))
          (listeners (win (size_cleanup f (size_effect f s)))) = false.
Proof.
  intros Hfresh. split.
  - unfold size_cleanup, size_effect, onResize, addEventListener,
      removeEventListener. cbn [win listeners]. rewrite Hfresh.
    rewrite filter_app, filter_absent by exact Hfresh.
    cbn [filter]. rewrite same_listener_refl. cbn [negb]. apply app_nil_r.
  - apply filter_removes.
Qed.

Lemma size_cleanup_undoes_effect_witness :
  listeners (win (size_cleanup 2 (size_effect 2
    (useWindowSize {| innerWidth := 800; innerHeight := 600;
                      listeners := [ ("resize", 1); ("scroll", 2) ] |})))) =
  [ ("resize", 1); ("scroll", 2) ].
Proof.
  apply (size_cleanup_undoes_effect 2
    (useWindowSize {| innerWidth := 800; innerHeight := 600;
                      listeners := [ ("resize", 1); ("scroll", 2) ] |})).
  reflexivity.
Defined.

Lemma registered_after_effect (f : nat) (s : sized) :
  existsb (same_listener ("resize", f)) (listeners (win (size_effect f s))) = true.
Proof.
  unfold size_effect, onResize, addEventListener. cbn [win listeners].
  destruct (existsb (same_listener ("resize", f)) (listeners (win s))) eqn:H.
  - exact H.
  - rewrite existsb_app. cbn [existsb]. rewrite same_listener_refl.
    now rewrite orb_true_r.
Qed.

Lemma resizes_while_registered (f : nat) (dims : list (Z * Z)) :
  forall s,
    existsb (same_listener ("resize", f)) (listeners (win s)) = true ->
    size (resizes f dims s) = last dims (size s) /\
    (dims <> [] ->
     (innerWidth (win (resizes f dims s)), innerHeight (win (resizes f dims s))) =
     last dims (size s)).
Proof.
  unfold resizes.
  induction dims as [|wh rest IH]; intros s Hreg; cbn [fold_left].
  - split; [reflexivity | congruence].
  - assert (Hstep : resized f wh s =
      {| win := {| innerWidth := fst wh; innerHeight := snd wh;
                   listeners := listeners (win s) |};
         size := wh |}).
    { unfold resized, onResize. cbn [listeners win innerWidth innerHeight].
      rewrite Hreg. now destruct wh. }
    rewrite Hstep.
    destruct (IH {| win := {| innerWidth := fst wh; innerHeight := snd wh;
                              listeners := listeners (win s) |};
                    size := wh |} Hreg) as [Hsize Hwin].
    rewrite Hsize. cbn [size].
    assert (Hlast : last rest wh = last (wh :: rest) (size s)).
    { clear. destruct rest as [|x r]; [reflexivity|].
      revert x. induction r as [|y r IHr]; intros x; [reflexivity|].
      apply (IHr y). }
    rewrite <- Hlast. split; [reflexivity|]. intros _.
    destruct rest as [|x r]; [now destruct wh|].
    cbn [size] in Hwin. apply Hwin. discriminate.
Qed.

(** X13: while the effect is in place the size follows the window: after
    the effect and any run of resize events, [size] is the pair of the
    dimensions last reported, or of the dimensions the window had when
    the effect ran if there was no event. *)
Theorem size_follows_window (f : nat) (s : sized) (dims : list (Z * Z)) :
  size (resizes f dims (size_effect f s)) =
  last dims (innerWidth (win s), innerHeight (win s)).
Proof.
  destruct (resizes_while_registered f dims (size_effect f s)
              (registered_after_effect f s)) as [H _].
  exact H.
Qed.

Lemma resizes_while_unregistered (f : nat) (dims : list (Z * Z)) :
  forall s,
    existsb (same_listener ("resize", f)) (listeners (win s)) = false ->
    size (resizes f dims s) = size s.
Proof.
  unfold resizes.
  induction dims as [|wh rest IH]; intros s Hreg; cbn [fold_left]; [reflexivity|].
  assert (Hstep : resized f wh s =
    {| win := {| innerWidth := fst wh; innerHeight := snd wh;
                 listeners := listeners (win s) |};
       size := size s |}).
  { unfold resized. cbn [listeners]. now rewrite Hreg. }
  rewrite Hstep.
  now rewrite (IH {| win := {| innerWidth := fst wh; innerHeight := snd wh;
                               listeners := listeners (win s) |};
                     size := size s |} Hreg).
Qed.

(** X14: after the cleanup the hook no longer follows the window: no run
    of resize events changes [size]. *)
Theorem size_frozen_after_cleanup (f : nat) (s : sized) (dims : list (Z * Z)) :
  size (resizes f dims (size_cleanup f s)) = size s.
Proof.
  rewrite resizes_while_unregistered; [reflexivity|].
  apply filter_removes.
Qed.
